(** * JobScraper: a shallow embedding of [JobScraper.py]

    The script builds a search URL, fetches one result page per page
    index, selects job cards from the parsed document and maps each card
    to a [JobPosting]; [main] prints a line-based report.

    Python values are modelled as follows.
    - [str] is a list of Unicode code points ([N]).
    - [int] is [Z].
    - A parsed document (the tree [BeautifulSoup] builds) is a [node].
    - The network is a function from the requested URL to what
      [requests.get] does for it and what the HTML parser makes of
      the body; the requests made are recorded in a trace, and a
      raised exception ends the run. *)

From Stdlib Require Import List NArith ZArith Bool Ascii String Lia ZifyBool.
From Stdlib Require Import DecimalString DecimalZ DecimalPos.
Import ListNotations.

Local Open Scope N_scope.
Local Open Scope list_scope.

(** ** Python strings *)

Module PyStr.

(** A Python [str]: its sequence of code points. *)
Definition str := list N.

(** A string literal of the source. *)
Definition lit (s : string) : str :=
  map N_of_ascii (list_ascii_of_string s).

Definition str_eqb (a b : str) : bool :=
  if list_eq_dec N.eq_dec a b then true else false.

(** Truthiness of a [str]: the empty string is falsy. *)
Definition truthy (s : str) : bool :=
  match s with [] => false | _ :: _ => true end.

(** [s.startswith(c)] for a one-character prefix. *)
Definition startswith_char (c : N) (s : str) : bool :=
  match s with [] => false | x :: _ => x =? c end.

(** [str.isspace] on one code point: the code points CPython's
    [_PyUnicode_IsWhitespace] accepts. *)
Definition isspace (c : N) : bool :=
  ((9 <=? c) && (c <=? 13)) || ((28 <=? c) && (c <=? 32))
  || (c =? 133) || (c =? 160) || (c =? 5760)
  || ((8192 <=? c) && (c <=? 8202))
  || (c =? 8232) || (c =? 8233) || (c =? 8239) || (c =? 8287)
  || (c =? 12288).

Fixpoint lstrip (s : str) : str :=
  match s with
  | [] => []
  | c :: s' => if isspace c then lstrip s' else s
  end.

Definition rstrip (s : str) : str := rev (lstrip (rev s)).

(** [s.strip()] *)
Definition strip (s : str) : str := rstrip (lstrip s).

(** [sep.join(parts)] *)
Fixpoint join (sep : str) (parts : list str) : str :=
  match parts with
  | [] => []
  | [p] => p
  | p :: rest => p ++ sep ++ join sep rest
  end.

(** The default of [sys.get_int_max_str_digits()]. *)
Definition INT_MAX_STR_DIGITS : nat := 4300.

(** The number of decimal digits of an [int], the sign not counted. *)
Definition int_digits (n : Z) : nat :=
  match Z.to_int n with
  | Decimal.Pos d | Decimal.Neg d => String.length (NilZero.string_of_uint d)
  end.

(** [str(n)] for an [int] proper (not a [bool]); [None] stands for the
    [ValueError] that CPython raises when [n] has more digits than the
    limit on integer string conversion. *)
Definition str_of_int (n : Z) : option str :=
  if (int_digits n <=? INT_MAX_STR_DIGITS)%nat
  then Some (lit (NilZero.string_of_int (Z.to_int n)))
  else None.

(** A Unicode scalar value: a code point below U+110000 that is not
    a surrogate.  These are the code points the strict UTF-8 codec
    encodes. *)
Definition is_scalar (c : N) : bool :=
  (c <? 55296) || ((57344 <=? c) && (c <? 1114112)).

Definition well_formed (s : str) : bool := forallb is_scalar s.

(** [c * n] for a one-character string [c]. *)
Definition repeat_char (c : N) (n : nat) : str := repeat c n.

End PyStr.
Export PyStr.

(** ** Percent-encoding: [requests.utils.quote]

    [requests.utils.quote] is [urllib.parse.quote] with its default
    [safe='/']: the string is encoded as UTF-8 (strictly: a lone
    surrogate raises [UnicodeEncodeError]) and every byte outside the
    unreserved set and [safe] is written as [%XX] with upper-case
    hexadecimal digits. *)

Module Quote.

(** UTF-8 encoding of one code point; [None] where the strict codec
    raises. *)
Definition utf8_encode_char (c : N) : option (list N) :=
  if c <? 128 then Some [c]
  else if c <? 2048 then Some [192 + c / 64; 128 + c mod 64]
  else if c <? 65536 then
    if (55296 <=? c) && (c <? 57344) then None
    else Some [224 + c / 4096; 128 + (c / 64) mod 64; 128 + c mod 64]
  else if c <? 1114112 then
    Some [240 + c / 262144; 128 + (c / 4096) mod 64;
          128 + (c / 64) mod 64; 128 + c mod 64]
  else None.

(** [s.encode('utf-8')] *)
Fixpoint utf8_encode (s : str) : option (list N) :=
  match s with
  | [] => Some []
  | c :: s' =>
    match utf8_encode_char c, utf8_encode s' with
    | Some bs, Some rest => Some (bs ++ rest)
    | _, _ => None
    end
  end.

(** The bytes [quote] leaves as they are: letters, digits, [_.-~] and
    the default safe character [/]. *)
Definition is_safe (b : N) : bool :=
  ((65 <=? b) && (b <=? 90)) || ((97 <=? b) && (b <=? 122))
  || ((48 <=? b) && (b <=? 57))
  || (b =? 95) || (b =? 46) || (b =? 45) || (b =? 126)
  || (b =? 47).

(** The digit of [0123456789ABCDEF] for a value below sixteen. *)
Definition hexdigit (d : N) : N :=
  if d <? 10 then 48 + d else 55 + d.

Definition quote_byte (b : N) : str :=
  if is_safe b then [b] else [37; hexdigit (b / 16); hexdigit (b mod 16)].

Definition quote_from_bytes (bs : list N) : str :=
  flat_map quote_byte bs.

(** [requests.utils.quote(s)]; [None] stands for [UnicodeEncodeError]. *)
Definition quote (s : str) : option str :=
  option_map quote_from_bytes (utf8_encode s).

(** What [quote] writes: unreserved characters, [/] and [%]. *)
Definition url_char (c : N) : bool := is_safe c || (c =? 37).

(** [sep] does not occur in [s]. *)
Definition free_of (sep : N) (s : str) : bool :=
  forallb (fun c => negb (c =? sep)) s.

(** *** Decoding, as [urllib.parse.unquote] and a query-string parser
    do it.  The script itself never decodes; these definitions are the
    reading side against which the built URL is checked. *)

Definition hexval (c : N) : option N :=
  if (48 <=? c) && (c <=? 57) then Some (c - 48)
  else if (65 <=? c) && (c <=? 70) then Some (c - 55)
  else if (97 <=? c) && (c <=? 102) then Some (c - 87)
  else None.

(** Percent-decoding to bytes; a [%] not followed by two hexadecimal
    digits is kept as it is. *)
Fixpoint unquote_to_bytes (s : str) : list N :=
  match s with
  | [] => []
  | c :: s' =>
    if c =? 37 then
      match s' with
      | h1 :: h2 :: rest =>
        match hexval h1, hexval h2 with
        | Some a, Some b => (16 * a + b) :: unquote_to_bytes rest
        | _, _ => c :: unquote_to_bytes s'
        end
      | _ => c :: unquote_to_bytes s'
      end
    else c :: unquote_to_bytes s'
  end.

Definition is_cont (b : N) : bool := (128 <=? b) && (b <? 192).

(** Strict UTF-8 decoding: overlong forms, surrogates, code points
    above U+10FFFF and truncated sequences are rejected. *)
Fixpoint utf8_decode (bs : list N) : option str :=
  match bs with
  | [] => Some []
  | b0 :: r0 =>
    if b0 <? 128 then option_map (cons b0) (utf8_decode r0)
    else if b0 <? 192 then None
    else if b0 <? 224 then
      match r0 with
      | b1 :: r1 =>
        let c := (b0 - 192) * 64 + (b1 - 128) in
        if is_cont b1 && (128 <=? c)
        then option_map (cons c) (utf8_decode r1) else None
      | _ => None
      end
    else if b0 <? 240 then
      match r0 with
      | b1 :: b2 :: r2 =>
        let c := (b0 - 224) * 4096 + (b1 - 128) * 64 + (b2 - 128) in
        if is_cont b1 && is_cont b2 && (2048 <=? c)
           && negb ((55296 <=? c) && (c <? 57344))
        then option_map (cons c) (utf8_decode r2) else None
      | _ => None
      end
    else if b0 <? 248 then
      match r0 with
      | b1 :: b2 :: b3 :: r3 =>
        let c := (b0 - 240) * 262144 + (b1 - 128) * 4096
                 + (b2 - 128) * 64 + (b3 - 128) in
        if is_cont b1 && is_cont b2 && is_cont b3
           && (65536 <=? c) && (c <? 1114112)
        then option_map (cons c) (utf8_decode r3) else None
      | _ => None
      end
    else None
  end.

(** [urllib.parse.unquote(s)] with a strict decoder. *)
Definition unquote (s : str) : option str :=
  utf8_decode (unquote_to_bytes s).

(** [s.split(sep)] for a one-character separator. *)
Fixpoint split_on (sep : N) (s : str) : list str :=
  match s with
  | [] => [[]]
  | c :: s' =>
    if c =? sep then [] :: split_on sep s'
    else match split_on sep s' with
         | h :: t => (c :: h) :: t
         | [] => [[c]]
         end
  end.

(** [s.partition(sep)]: the text before and after the first [sep]. *)
Fixpoint partition_on (sep : N) (s : str) : option (str * str) :=
  match s with
  | [] => None
  | c :: s' =>
    if c =? sep then Some ([], s')
    else match partition_on sep s' with
         | Some (a, b) => Some (c :: a, b)
         | None => None
         end
  end.

(** The raw [key=value] pairs of a URL's query string, in order. *)
Definition query_pairs (url : str) : list (str * str) :=
  match partition_on 63 url with
  | None => []
  | Some (_, qs) =>
    map (fun p => match partition_on 61 p with
                  | Some kv => kv
                  | None => (p, [])
                  end) (split_on 38 qs)
  end.

Fixpoint assoc (k : str) (l : list (str * str)) : option str :=
  match l with
  | [] => None
  | (k', v) :: l' => if str_eqb k k' then Some v else assoc k l'
  end.

(** The raw (still encoded) value of a query parameter. *)
Definition raw_param (url : str) (k : str) : option str :=
  assoc k (query_pairs url).

(** The decoded value of a query parameter. *)
Definition param (url : str) (k : str) : option str :=
  match raw_param url k with
  | Some v => unquote v
  | None => None
  end.

(** [int(s)] for a decimal literal. *)
Definition int_of_str (s : str) : option Z :=
  option_map Z.of_int
    (NilZero.int_of_string (string_of_list_ascii (map ascii_of_N s))).

(** The [start] parameter of a URL, read as an integer. *)
Definition start_of (url : str) : option Z :=
  match param url (lit "start") with
  | Some v => int_of_str v
  | None => None
  end.

End Quote.
Export Quote.

(** ** The parsed document: [bs4] tags and CSS selection

    [BeautifulSoup(text, "html.parser")] yields a tree of tags and
    strings.  The parser itself is not modelled: a response body is
    represented by the tree built from it.  A tag carries its name, its
    [class] list (a multi-valued attribute in [bs4]) and its other
    attributes, whose values are strings.  Comments and the other
    special strings that [.text] leaves out are not represented.  Tag
    names are as the parser stores them, in lower case. *)

Module Dom.

#[local] Set Warnings "-register-all".

Inductive node :=
| NavigableString (s : str)
| Tag (name : str) (classes : list str) (attrs : list (str * str))
      (contents : list node).

(** A tag in its document: the tag and its ancestors, nearest first
    ([tag.parents]). *)
Definition element := (list node * node)%type.

(** [tag.get(key)]: [None] when the attribute is absent. *)
Definition tag_get (t : node) (key : str) : option str :=
  match t with
  | Tag _ _ attrs _ => assoc key attrs
  | NavigableString _ => None
  end.

(** [tag.get(key, default)] *)
Definition tag_get_default (t : node) (key : str) (default : str) : str :=
  match tag_get t key with
  | Some v => v
  | None => default
  end.

(** [tag.text]: the strings below the tag, concatenated. *)
Fixpoint text (n : node) : str :=
  match n with
  | NavigableString s => s
  | Tag _ _ _ contents => flat_map text contents
  end.

(** The tags strictly below [n] in document order, each with its
    ancestors; [ps] are the ancestors of [n] itself. *)
Fixpoint descendants (ps : list node) (n : node) : list element :=
  match n with
  | NavigableString _ => []
  | Tag _ _ _ contents =>
    flat_map (fun c =>
                match c with
                | NavigableString _ => []
                | Tag _ _ _ _ => (n :: ps, c) :: descendants (n :: ps) c
                end) contents
  end.

(** One step of a selector: a type selector, with or without a
    class ([a], [h2.title]). *)
Inductive simple :=
| Named (name : str)
| NamedClass (name : str) (cls : str).

Definition matches_simple (s : simple) (n : node) : bool :=
  match n with
  | NavigableString _ => false
  | Tag name classes _ _ =>
    match s with
    | Named name' => str_eqb name name'
    | NamedClass name' cls =>
      str_eqb name name' && existsb (str_eqb cls) classes
    end
  end.

(** Do the ancestors [ps] (nearest first) satisfy the remaining
    steps [rs] of a selector, read right to left? *)
Fixpoint ancestors_match (rs : list simple) (ps : list node) : bool :=
  match rs with
  | [] => true
  | s :: rs' =>
    (fix scan (qs : list node) : bool :=
       match qs with
       | [] => false
       | q :: qs' =>
         (matches_simple s q && ancestors_match rs' qs') || scan qs'
       end) ps
  end.

(** A selector, stored right to left: the subject first, then the
    ancestors it requires. *)
Definition complex := list simple.

Definition matches (sel : complex) (e : element) : bool :=
  match sel with
  | [] => false
  | subject :: rs =>
    matches_simple subject (snd e) && ancestors_match rs (fst e)
  end.

(** [tag.select(group)]: the descendants matching any selector of a
    comma-separated group, in document order. *)
Definition select (e : element) (group : list complex) : list element :=
  filter (fun d => existsb (fun sel => matches sel d) group)
         (descendants (fst e) (snd e)).

(** [tag.select_one(sel)]: the first match, or [None]. *)
Definition select_one (e : element) (sel : complex) : option element :=
  find (matches sel) (descendants (fst e) (snd e)).

(** The selectors of the script.
    [div.jobsearch-SerpJobCard, div.cardOutline] *)
Definition sel_cards : list complex :=
  [ [NamedClass (lit "div") (lit "jobsearch-SerpJobCard")];
    [NamedClass (lit "div") (lit "cardOutline")] ].

(** [h2.title a] *)
Definition sel_title1 : complex :=
  [Named (lit "a"); NamedClass (lit "h2") (lit "title")].

(** [h2.jobTitle a] *)
Definition sel_title2 : complex :=
  [Named (lit "a"); NamedClass (lit "h2") (lit "jobTitle")].

(** [span.company] *)
Definition sel_company1 : complex :=
  [NamedClass (lit "span") (lit "company")].

(** [span.companyName] *)
Definition sel_company2 : complex :=
  [NamedClass (lit "span") (lit "companyName")].

(** [div.recJobLoc] *)
Definition sel_loc1 : complex :=
  [NamedClass (lit "div") (lit "recJobLoc")].

(** [div.companyLocation] *)
Definition sel_loc2 : complex :=
  [NamedClass (lit "div") (lit "companyLocation")].

(** [div.summary] *)
Definition sel_summary1 : complex :=
  [NamedClass (lit "div") (lit "summary")].

(** [div.job-snippet] *)
Definition sel_summary2 : complex :=
  [NamedClass (lit "div") (lit "job-snippet")].

(** [a or b] on results of [select_one]: a tag is always truthy, so
    the right operand is evaluated exactly when the left is [None]. *)
Definition or_else {A} (a : option A) (b : unit -> option A) : option A :=
  match a with
  | Some x => Some x
  | None => b tt
  end.

End Dom.
Export Dom.

(** ** The scraper *)

Module Scraper.

Record JobPosting := mkJobPosting {
  title : str;
  company : str;
  location : str;
  summary : str;
  url : str
}.

Definition BASE_URL : str := lit "https://www.indeed.com/jobs".

(** The exceptions a run can end with: from [raise_for_status], from
    [requests.get], from [quote], from [str] of an integer, and from
    [BeautifulSoup] when the parser rejects the markup. *)
Inductive exn :=
| HTTPError (status_code : Z)
| RequestException
| UnicodeEncodeError
| ValueError
| ParserRejectedMarkup.

(** [quote(str(v))] for the integer parameter. *)
Definition quote_int (v : Z) : option str :=
  match str_of_int v with
  | Some s => quote s
  | None => None
  end.

(** [_build_search_url]: the three parameters in the order of the
    dictionary, each value passed through [quote(str(v))], joined
    with [&].  [start] is an [int], as annotated and as the one caller
    passes it.  [None] stands for an exception, see [build_error]. *)
Definition _build_search_url (query location : str) (start : Z)
  : option str :=
  match quote query, quote location, quote_int start with
  | Some q, Some l, Some s =>
    let query_str :=
      join (lit "&") [lit "q" ++ lit "=" ++ q;
                      lit "l" ++ lit "=" ++ l;
                      lit "start" ++ lit "=" ++ s] in
    Some (BASE_URL ++ lit "?" ++ query_str)
  | _, _, _ => None
  end.

(** The exception raised when [_build_search_url] builds no URL.  The
    values are converted in the order [q], [l], [start]: a query or
    location that cannot be encoded raises before [str(start)] is
    tried. *)
Definition build_error (query location : str) : exn :=
  match quote query, quote location with
  | Some _, Some _ => ValueError
  | _, _ => UnicodeEncodeError
  end.

(** [x or y] where [x] is [None] or a string. *)
Definition or_str (x : option str) (y : str) : str :=
  match x with
  | Some v => if truthy v then v else y
  | None => y
  end.

(** The tags the loop body looks up in a card, each with its primary
    selector and its alternate. *)
Definition find_title_tag (card : element) : option element :=
  or_else (select_one card sel_title1)
          (fun _ => select_one card sel_title2).
Definition find_company_tag (card : element) : option element :=
  or_else (select_one card sel_company1)
          (fun _ => select_one card sel_company2).
Definition find_loc_tag (card : element) : option element :=
  or_else (select_one card sel_loc1)
          (fun _ => select_one card sel_loc2).
Definition find_summary_tag (card : element) : option element :=
  or_else (select_one card sel_summary1)
          (fun _ => select_one card sel_summary2).

Definition SITE : str := lit "https://www.indeed.com".

(** The link of a title tag: its [href], made absolute when it
    starts with a slash. *)
Definition link_of (title_tag : element) : str :=
  let link := tag_get_default (snd title_tag) (lit "href") [] in
  if truthy link && startswith_char 47 link then SITE ++ link else link.

(** [tag.text.strip()] *)
Definition stripped_text (t : element) : str := strip (text (snd t)).

(** The body of the loop over cards: [None] is the [continue] taken
    when no title link is found. *)
Definition card_posting (card : element) : option JobPosting :=
  match find_title_tag card with
  | None => None
  | Some title_tag =>
    let title := or_str (tag_get (snd title_tag) (lit "title"))
                        (stripped_text title_tag) in
    let link := link_of title_tag in
    let company :=
      match find_company_tag card with
      | Some company_tag => stripped_text company_tag
      | None => []
      end in
    let location_text :=
      match find_loc_tag card with
      | Some loc_tag =>
        or_str (tag_get (snd loc_tag) (lit "data-rc-loc"))
               (stripped_text loc_tag)
      | None => []
      end in
    let summary :=
      match find_summary_tag card with
      | Some summary_tag => stripped_text summary_tag
      | None => []
      end in
    Some (mkJobPosting title company location_text summary link)
  end.

(** One iteration of the loop over cards: [results.append(...)], or
    nothing when the card is skipped. *)
Definition card_step (results : list JobPosting) (card : element)
  : list JobPosting :=
  match card_posting card with
  | Some p => results ++ [p]
  | None => results
  end.

(** The loop over the cards of one page, appending to [results]. *)
Definition cards_loop (cards : list element) (results : list JobPosting)
  : list JobPosting :=
  fold_left card_step cards results.

(** What [requests.get] does for a URL: it raises (timeout, DNS,
    connection reset) or returns a response with a status code and a
    body.  The body is given by what [BeautifulSoup] makes of it: the
    tree built from it ([Response]), or nothing when the parser
    rejects the markup and [BeautifulSoup] raises ([Unparsable]).
    The fixed headers and timeout do not vary and are left out. *)
Inductive fetched :=
| NoResponse
| Response (status_code : Z) (soup : node)
| Unparsable (status_code : Z).

Definition network := str -> fetched.

(** The status code of what was fetched, when there is a response. *)
Definition status_of (f : fetched) : option Z :=
  match f with
  | NoResponse => None
  | Response status_code _ => Some status_code
  | Unparsable status_code => Some status_code
  end.

(** [response.raise_for_status()] raises for the client and server
    error classes, [400 <= status_code < 600]. *)
Definition raises_for_status (status_code : Z) : bool :=
  ((400 <=? status_code) && (status_code <? 600))%Z.

Inductive outcome :=
| Returned (results : list JobPosting)
| Raised (e : exn).

(** A run: the URLs requested, in order, and how the call ended. *)
Record run := mkRun { requested : list str; result : outcome }.

(** [range(n)] *)
Definition py_range (n : Z) : list Z :=
  map Z.of_nat (seq 0 (Z.to_nat n)).

(** The loop over pages. *)
Fixpoint pages_loop (net : network) (query location : str)
         (pages : list Z) (results : list JobPosting) (trace : list str)
  : run :=
  match pages with
  | [] => mkRun trace (Returned results)
  | page :: rest =>
    match _build_search_url query location (page * 10) with
    | None => mkRun trace (Raised (build_error query location))
    | Some url =>
      match net url with
      | NoResponse => mkRun (trace ++ [url]) (Raised RequestException)
      | Response status_code soup =>
        if raises_for_status status_code
        then mkRun (trace ++ [url]) (Raised (HTTPError status_code))
        else
          let cards := select ([], soup) sel_cards in
          pages_loop net query location rest
                     (cards_loop cards results) (trace ++ [url])
      | Unparsable status_code =>
        if raises_for_status status_code
        then mkRun (trace ++ [url]) (Raised (HTTPError status_code))
        else mkRun (trace ++ [url]) (Raised ParserRejectedMarkup)
      end
    end
  end.

Definition scrape_jobs (net : network) (query location : str) (pages : Z)
  : run :=
  pages_loop net query location (py_range pages) [] [].

(** A fetch that makes the run stop: [requests.get] raises,
    [raise_for_status] does, or the parser rejects the body. *)
Definition fetch_fails (net : network) (u : str) : Prop :=
  match net u with
  | NoResponse => True
  | Response status_code _ => raises_for_status status_code = true
  | Unparsable _ => True
  end.


(** The printing loop of [main].  The output is recorded as the
    arguments of the [print] calls, in order; the text written is
    [stdout_text] of them.  The output stream is taken to accept every
    string: which characters it can encode is a property of the
    environment, not of the script. *)
Definition print_job (out : list str) (job : JobPosting) : list str :=
  let out := out ++ [title job ++ lit " at " ++ company job
                     ++ lit " (" ++ location job ++ lit ")"] in
  let out := if truthy (summary job) then out ++ [summary job] else out in
  let out := out ++ [url job] in
  out ++ [repeat_char 45 60].

Definition print_postings (postings : list JobPosting) : list str :=
  fold_left print_job postings [].

(** The text the [print] calls write: each argument followed by a
    newline. *)
Definition stdout_text (printed : list str) : str :=
  flat_map (fun s => s ++ [10]) printed.


End Scraper.
Export Scraper.

(** ** The report, as the specification words it

    Per posting, in order: the line [<title> at <company> (<location>)],
    the summary line if the summary is non-empty, the URL line, and a
    separator of sixty dashes. *)

Module Report.

Definition separator : str :=
  lit "------------------------------------------------------------".

Definition posting_report (job : JobPosting) : list str :=
  [title job ++ lit " at " ++ company job ++ lit " (" ++ location job
   ++ lit ")"]
  ++ (match summary job with [] => [] | _ :: _ => [summary job] end)
  ++ [url job]
  ++ [separator].

Definition report (postings : list JobPosting) : list str :=
  flat_map posting_report postings.

End Report.
Export Report.

(** ** Sample documents and networks *)

Module Examples.

Definition txt (s : string) : node := NavigableString (lit s).

(** [<a href="/viewjob?jk=abc" title="Engineer">Eng...</a>] *)
Definition a_relative : node :=
  Tag (lit "a") []
      [(lit "href", lit "/viewjob?jk=abc"); (lit "title", lit "Engineer")]
      [txt "Eng..."].

(** [<a href="https://example.com/x"> Analyst </a>] *)
Definition a_absolute : node :=
  Tag (lit "a") [] [(lit "href", lit "https://example.com/x")]
      [txt " Analyst "].

(** [<a>Clerk</a>] *)
Definition a_no_href : node := Tag (lit "a") [] [] [txt "Clerk"].

(** [<a href="/x"></a>]: no title attribute and no text. *)
Definition a_blank : node :=
  Tag (lit "a") [] [(lit "href", lit "/x")] [].

(** [<a title="" href="/x">Engineer</a>]: an empty title attribute. *)
Definition a_empty_title : node :=
  Tag (lit "a") [] [(lit "title", []); (lit "href", lit "/x")]
      [txt "Engineer"].

(** A card of the first layout, with every primary selector. *)
Definition card_primary : node :=
  Tag (lit "div") [lit "jobsearch-SerpJobCard"] []
      [ Tag (lit "h2") [lit "title"] [] [a_relative];
        Tag (lit "span") [lit "company"] [] [txt " ACME "];
        Tag (lit "span") [lit "companyName"] [] [txt "Other"];
        Tag (lit "div") [lit "recJobLoc"]
            [(lit "data-rc-loc", lit "Toronto, ON")] [txt "elsewhere"];
        Tag (lit "div") [lit "summary"] [] [txt " Build things. "] ].

(** A card of the second layout, with the alternate selectors only. *)
Definition card_alternate : node :=
  Tag (lit "div") [lit "cardOutline"] []
      [ Tag (lit "h2") [lit "jobTitle"] [] [a_absolute];
        Tag (lit "span") [lit "companyName"] [] [txt " Initech "];
        Tag (lit "div") [lit "companyLocation"] [] [txt " Ottawa "] ].

(** A card with no title link at all. *)
Definition card_untitled : node :=
  Tag (lit "div") [lit "cardOutline"] []
      [ Tag (lit "span") [lit "companyName"] [] [txt "Nameless"] ].

Definition card_of (anchor : node) : node :=
  Tag (lit "div") [lit "cardOutline"] []
      [ Tag (lit "h2") [lit "jobTitle"] [] [anchor] ].

(** The document holding the given cards. *)
Definition page (cards : list node) : node :=
  Tag (lit "[document]") [] []
      [ Tag (lit "html") [] [] [ Tag (lit "body") [] [] cards ] ].

(** A card as [soup.select] yields it from [page]. *)
Definition in_page (cards : list node) (card : node) : element :=
  ([Tag (lit "body") [] [] cards;
    Tag (lit "html") [] [] [Tag (lit "body") [] [] cards];
    page cards], card).

(** A network answering every request with the same status and page. *)
Definition net_const (status_code : Z) (soup : node) : network :=
  fun _ => Response status_code soup.

(** A network on which every request fails. *)
Definition net_down : network := fun _ => NoResponse.

(** A network answering every request with status 200 and a body the
    parser rejects. *)
Definition net_unparsable : network := fun _ => Unparsable 200.

(** A well-formed query with a space, [&], [=] and non-ASCII text. *)
Definition q_special : str := lit "R&D = caf" ++ [233; 32; 8364; 128512].

(** The URL of the first page for the sample query and location. *)
Definition url_page0 : str :=
  lit "https://www.indeed.com/jobs?q=python%20developer&l=New%20York&start=0".

(** The records the script makes of the sample cards. *)
Definition posting_primary : JobPosting :=
  mkJobPosting (lit "Engineer") (lit "ACME") (lit "Toronto, ON")
               (lit "Build things.")
               (lit "https://www.indeed.com/viewjob?jk=abc").

Definition posting_alternate : JobPosting :=
  mkJobPosting (lit "Analyst") (lit "Initech") (lit "Ottawa") []
               (lit "https://example.com/x").

Definition posting_blank : JobPosting :=
  mkJobPosting [] [] [] [] (lit "https://www.indeed.com/x").

Definition posting_empty_title : JobPosting :=
  mkJobPosting (lit "Engineer") [] [] [] (lit "https://www.indeed.com/x").

End Examples.

(** ** Derived views of a run

    Functions that read off what the loops compute: the records of one
    card as a list, the records of one fetched page, and tests on the
    first and last character of a field. *)

Module Views.

(** The records a card contributes: one, or none when it is skipped. *)
Definition posting_of_card (card : element) : list JobPosting :=
  match card_posting card with
  | Some p => [p]
  | None => []
  end.

Definition has_title_link (card : element) : bool :=
  match find_title_tag card with
  | Some _ => true
  | None => false
  end.

(** The records of the page a URL is answered with. *)
Definition page_postings (net : network) (u : str) : list JobPosting :=
  match net u with
  | Response _ soup => flat_map posting_of_card (select ([], soup) sel_cards)
  | NoResponse => []
  | Unparsable _ => []
  end.

(** The exception a failed fetch raises. *)
Definition fetch_error (net : network) (u : str) : exn :=
  match net u with
  | NoResponse => RequestException
  | Response status_code _ => HTTPError status_code
  | Unparsable status_code =>
    if raises_for_status status_code then HTTPError status_code
    else ParserRejectedMarkup
  end.

Definition starts_with_space (s : str) : bool :=
  match s with
  | c :: _ => isspace c
  | [] => false
  end.

Definition ends_with_space (s : str) : bool := starts_with_space (rev s).

Definition is_ascii (c : N) : bool := c <? 128.

(** The number of newline characters in a string. *)
Definition newlines (s : str) : nat := count_occ N.eq_dec s 10.

(** The newline characters in the fields of a posting. *)
Definition field_newlines (job : JobPosting) : nat :=
  (newlines (title job) + newlines (company job) + newlines (location job)
   + newlines (summary job) + newlines (url job))%nat.

(** The number of lines of a text: its newline characters. *)
Definition line_count (text : str) : nat := newlines text.


(** The URL built for the sample query with specials, the location
    [New York] and the offset [-30]. *)
Definition url_special : str :=
  lit "https://www.indeed.com/jobs?q=R%26D%20%3D%20caf%C3%A9%20"
  ++ lit "%E2%82%AC%F0%9F%98%80&l=New%20York&start=-30".

End Views.
Export Views.

(** * Properties *)

(** Arithmetic goals mention division by constants; [lia] is told how
    to read them. *)
Ltac Zify.zify_post_hook ::= Z.to_euclidean_division_equations.

(** ** Percent-encoding and the structure of the built URL *)

Module QuoteFacts.

(** Arithmetic on code points is left folded for [lia]. *)
#[local] Arguments N.add : simpl never.
#[local] Arguments N.mul : simpl never.
#[local] Arguments N.sub : simpl never.
#[local] Arguments N.div : simpl never.
#[local] Arguments N.modulo : simpl never.
#[local] Arguments N.ltb : simpl never.
#[local] Arguments N.leb : simpl never.
#[local] Arguments N.eqb : simpl never.

(** Case analysis on every test of the goal, closing the cases whose
    tests contradict each other. *)
Ltac split_ifs :=
  repeat match goal with
  | |- context [if ?b then _ else _] => destruct b eqn:?; try lia
  end.

(** The four encoding lengths of [utf8_encode_char c = Some bs]. *)
Ltac utf8_cases c H :=
  unfold utf8_encode_char in H;
  destruct (c <? 128) eqn:?;
    [|destruct (c <? 2048) eqn:?;
      [|destruct (c <? 65536) eqn:?;
        [destruct ((55296 <=? c) && (c <? 57344))%bool eqn:?
        |destruct (c <? 1114112) eqn:?]]];
  try discriminate H; injection H as <-.

Lemma hexval_hexdigit d : d < 16 -> hexval (hexdigit d) = Some d.
Proof.
  intros H. unfold hexdigit.
  destruct (d <? 10) eqn:E; unfold hexval; split_ifs; f_equal; lia.
Qed.

Lemma utf8_decode_encode_char c bs rest :
  utf8_encode_char c = Some bs ->
  utf8_decode (bs ++ rest) = option_map (cons c) (utf8_decode rest).
Proof.
  intros H. utf8_cases c H;
    cbn [app utf8_decode]; unfold is_cont; cbv zeta;
    split_ifs; do 2 f_equal; lia.
Qed.

Lemma utf8_encode_char_bytes c bs :
  utf8_encode_char c = Some bs -> Forall (fun b => b < 256) bs.
Proof.
  intros H. utf8_cases c H; repeat constructor; lia.
Qed.

Lemma utf8_encode_char_scalar c :
  is_scalar c = true -> exists bs, utf8_encode_char c = Some bs.
Proof.
  unfold is_scalar, utf8_encode_char. intros H.
  split_ifs; eauto.
Qed.

Lemma utf8_encode_bytes s bs :
  utf8_encode s = Some bs -> Forall (fun b => b < 256) bs.
Proof.
  revert bs. induction s as [|c s IH]; cbn [utf8_encode]; intros bs H.
  - injection H as <-. constructor.
  - destruct (utf8_encode_char c) as [cs|] eqn:Ec; [|discriminate].
    destruct (utf8_encode s) as [rest|]; [|discriminate].
    injection H as <-. apply Forall_app. split.
    + eapply utf8_encode_char_bytes; eassumption.
    + apply IH. reflexivity.
Qed.

Lemma utf8_decode_encode s bs :
  utf8_encode s = Some bs -> utf8_decode bs = Some s.
Proof.
  revert bs. induction s as [|c s IH]; cbn [utf8_encode]; intros bs H.
  - injection H as <-. reflexivity.
  - destruct (utf8_encode_char c) as [cs|] eqn:Ec; [|discriminate].
    destruct (utf8_encode s) as [rest|]; [|discriminate].
    injection H as <-.
    rewrite (utf8_decode_encode_char _ _ _ Ec), (IH rest eq_refl).
    reflexivity.
Qed.

Lemma utf8_encode_well_formed s :
  well_formed s = true -> exists bs, utf8_encode s = Some bs.
Proof.
  unfold well_formed.
  induction s as [|c s IH]; cbn [forallb utf8_encode]; intros H.
  - eauto.
  - apply andb_true_iff in H. destruct H as [Hc Hs].
    destruct (utf8_encode_char_scalar c Hc) as [cs ->].
    destruct (IH Hs) as [rest ->]. eauto.
Qed.

Lemma utf8_encode_well_formed_inv s bs :
  utf8_encode s = Some bs -> well_formed s = true.
Proof.
  unfold well_formed.
  revert bs. induction s as [|c s IH]; cbn [forallb utf8_encode]; intros bs H.
  - reflexivity.
  - destruct (utf8_encode_char c) as [cs|] eqn:Ec; [|discriminate].
    destruct (utf8_encode s) as [rest|]; [|discriminate].
    rewrite (IH rest eq_refl), andb_true_r.
    unfold utf8_encode_char in Ec. unfold is_scalar.
    revert Ec. split_ifs; try discriminate; intros _; lia.
Qed.


Lemma hexdigit_safe d : d < 16 -> is_safe (hexdigit d) = true.
Proof. unfold is_safe, hexdigit. intros H. split_ifs. Qed.

Lemma quote_byte_chars b :
  b < 256 -> Forall (fun c => url_char c = true) (quote_byte b).
Proof.
  intros H. unfold quote_byte, url_char.
  destruct (is_safe b) eqn:E.
  - repeat constructor. rewrite E. reflexivity.
  - repeat constructor.
    + rewrite hexdigit_safe; [reflexivity | lia].
    + rewrite hexdigit_safe; [reflexivity | lia].
Qed.

Lemma unquote_quote_byte b rest :
  b < 256 ->
  unquote_to_bytes (quote_byte b ++ rest) = b :: unquote_to_bytes rest.
Proof.
  intros H. unfold quote_byte.
  destruct (is_safe b) eqn:E; cbn [app unquote_to_bytes].
  - unfold is_safe in E. destruct (b =? 37) eqn:E'; [lia | reflexivity].
  - change (37 =? 37) with true. cbv iota.
    rewrite !hexval_hexdigit by lia. f_equal. lia.
Qed.

Lemma unquote_quote_bytes bs :
  Forall (fun b => b < 256) bs ->
  unquote_to_bytes (quote_from_bytes bs) = bs.
Proof.
  unfold quote_from_bytes.
  induction 1 as [|b bs Hb _ IH]; cbn [flat_map].
  - reflexivity.
  - rewrite unquote_quote_byte by assumption. now rewrite IH.
Qed.

Lemma quote_from_bytes_chars bs :
  Forall (fun b => b < 256) bs ->
  Forall (fun c => url_char c = true) (quote_from_bytes bs).
Proof.
  unfold quote_from_bytes.
  induction 1 as [|b bs Hb _ IH]; cbn [flat_map].
  - constructor.
  - apply Forall_app. split; [now apply quote_byte_chars | assumption].
Qed.

Lemma unquote_quote s e : quote s = Some e -> unquote e = Some s.
Proof.
  unfold quote, unquote.
  destruct (utf8_encode s) as [bs|] eqn:E; [|discriminate].
  intros [= <-].
  rewrite unquote_quote_bytes by (eapply utf8_encode_bytes; eassumption).
  now apply utf8_decode_encode.
Qed.

Lemma quote_chars s e :
  quote s = Some e -> Forall (fun c => url_char c = true) e.
Proof.
  unfold quote. destruct (utf8_encode s) as [bs|] eqn:E; [|discriminate].
  intros [= <-]. apply quote_from_bytes_chars.
  eapply utf8_encode_bytes; eassumption.
Qed.

Lemma quote_well_formed s :
  well_formed s = true -> exists e, quote s = Some e.
Proof.
  intros H. destruct (utf8_encode_well_formed s H) as [bs E].
  unfold quote. rewrite E. cbn. eauto.
Qed.


Lemma free_of_app sep a b :
  free_of sep (a ++ b) = (free_of sep a && free_of sep b)%bool.
Proof. apply forallb_app. Qed.

Lemma url_chars_free sep e :
  url_char sep = false ->
  Forall (fun c => url_char c = true) e -> free_of sep e = true.
Proof.
  intros Hsep. unfold free_of. induction 1 as [|c e Hc _ IH]; cbn [forallb].
  - reflexivity.
  - rewrite IH, andb_true_r. destruct (c =? sep) eqn:E; [|reflexivity].
    apply N.eqb_eq in E. subst c. congruence.
Qed.

Lemma partition_on_app sep a b :
  free_of sep a = true -> partition_on sep (a ++ sep :: b) = Some (a, b).
Proof.
  unfold free_of.
  induction a as [|c a IH]; cbn [forallb app partition_on]; intros H.
  - rewrite N.eqb_refl. reflexivity.
  - apply andb_true_iff in H. destruct H as [Hc Ha].
    apply negb_true_iff in Hc. rewrite Hc, (IH Ha). reflexivity.
Qed.

Lemma split_on_free sep a :
  free_of sep a = true -> split_on sep a = [a].
Proof.
  unfold free_of. induction a as [|c a IH]; cbn [forallb split_on]; intros H.
  - reflexivity.
  - apply andb_true_iff in H. destruct H as [Hc Ha].
    apply negb_true_iff in Hc. rewrite Hc, (IH Ha). reflexivity.
Qed.

Lemma split_on_app sep a b :
  free_of sep a = true -> split_on sep (a ++ sep :: b) = a :: split_on sep b.
Proof.
  unfold free_of.
  induction a as [|c a IH]; cbn [forallb app split_on]; intros H.
  - rewrite N.eqb_refl. reflexivity.
  - apply andb_true_iff in H. destruct H as [Hc Ha].
    apply negb_true_iff in Hc. rewrite Hc, (IH Ha). reflexivity.
Qed.

Lemma build_url_shape query location start u :
  _build_search_url query location start = Some u ->
  exists q l s,
    quote query = Some q /\ quote location = Some l /\
    quote_int start = Some s /\
    u = BASE_URL ++ 63 :: (lit "q" ++ 61 :: q) ++ 38 ::
        (lit "l" ++ 61 :: l) ++ 38 :: (lit "start" ++ 61 :: s).
Proof.
  unfold _build_search_url.
  destruct (quote query) as [q|]; [|discriminate].
  destruct (quote location) as [l|]; [|discriminate].
  destruct (quote_int start) as [s|]; [|discriminate].
  intros H. exists q, l, s. repeat split.
  injection H as <-. reflexivity.
Qed.

Lemma pair_free k e :
  free_of 38 k = true -> Forall (fun c => url_char c = true) e ->
  free_of 38 (k ++ 61 :: e) = true.
Proof.
  intros Hk He. rewrite free_of_app, Hk.
  change (free_of 38 (61 :: e)) with (free_of 38 e).
  now apply url_chars_free.
Qed.

Lemma query_pairs_shape q l s :
  Forall (fun c => url_char c = true) q ->
  Forall (fun c => url_char c = true) l ->
  Forall (fun c => url_char c = true) s ->
  query_pairs (BASE_URL ++ 63 :: (lit "q" ++ 61 :: q) ++ 38 ::
               (lit "l" ++ 61 :: l) ++ 38 :: (lit "start" ++ 61 :: s))
  = [(lit "q", q); (lit "l", l); (lit "start", s)].
Proof.
  intros Cq Cl Cs. unfold query_pairs.
  rewrite partition_on_app by reflexivity.
  rewrite split_on_app by (now apply pair_free).
  rewrite split_on_app by (now apply pair_free).
  rewrite split_on_free by (now apply pair_free).
  cbn [map]. rewrite !partition_on_app by reflexivity. reflexivity.
Qed.

Lemma quote_int_chars start s :
  quote_int start = Some s -> Forall (fun c => url_char c = true) s.
Proof.
  unfold quote_int. destruct (str_of_int start); [|discriminate].
  apply quote_chars.
Qed.

Lemma build_url_pairs query location start u :
  _build_search_url query location start = Some u ->
  exists q l s,
    quote query = Some q /\ quote location = Some l /\
    quote_int start = Some s /\
    query_pairs u = [(lit "q", q); (lit "l", l); (lit "start", s)].
Proof.
  intros H.
  destruct (build_url_shape _ _ _ _ H) as (q & l & s & Eq & El & Es & ->).
  exists q, l, s. repeat split; try assumption.
  apply query_pairs_shape;
    solve [eapply quote_chars; eassumption
          |eapply quote_int_chars; eassumption].
Qed.

Lemma lit_well_formed s : well_formed (lit s) = true.
Proof.
  unfold well_formed, lit. apply forallb_forall. intros c Hc.
  apply in_map_iff in Hc. destruct Hc as (a & <- & _).
  pose proof (N_ascii_bounded a). unfold is_scalar. lia.
Qed.

(** Within the digit limit, [quote(str(v))] gives a result. *)
Lemma quote_int_total start :
  (int_digits start <= INT_MAX_STR_DIGITS)%nat ->
  exists s, quote_int start = Some s.
Proof.
  intros H. unfold quote_int, str_of_int.
  apply Nat.leb_le in H. rewrite H.
  apply quote_well_formed, lit_well_formed.
Qed.

(** Beyond the digit limit it gives none. *)
Lemma quote_int_beyond_limit start :
  (INT_MAX_STR_DIGITS < int_digits start)%nat -> quote_int start = None.
Proof.
  intros H. unfold quote_int, str_of_int.
  apply Nat.leb_gt in H. now rewrite H.
Qed.

Lemma build_url_total query location start :
  well_formed query = true -> well_formed location = true ->
  (int_digits start <= INT_MAX_STR_DIGITS)%nat ->
  exists u, _build_search_url query location start = Some u.
Proof.
  intros Hq Hl Hs. unfold _build_search_url.
  destruct (quote_well_formed _ Hq) as [q ->].
  destruct (quote_well_formed _ Hl) as [l ->].
  destruct (quote_int_total _ Hs) as [s ->]. eauto.
Qed.

Lemma int_of_str_of_int z s : str_of_int z = Some s -> int_of_str s = Some z.
Proof.
  unfold str_of_int.
  destruct (int_digits z <=? INT_MAX_STR_DIGITS)%nat; [|discriminate].
  intros [= <-].
  unfold int_of_str, lit.
  rewrite map_map.
  rewrite (map_ext _ (fun a => a)) by apply ascii_N_embedding.
  rewrite map_id, string_of_list_ascii_of_string.
  rewrite NilZero.isi.
  - cbn [option_map]. now rewrite DecimalZ.of_to.
  - destruct z; cbn; try discriminate.
    intros [= E]. now apply Unsigned.to_uint_nonnil in E.
  - destruct z; cbn; try discriminate.
    intros [= E]. now apply Unsigned.to_uint_nonnil in E.
Qed.

Lemma build_url_params query location start u :
  _build_search_url query location start = Some u ->
  param u (lit "q") = Some query /\
  param u (lit "l") = Some location /\
  start_of u = Some start.
Proof.
  intros H.
  destruct (build_url_pairs _ _ _ _ H) as (q & l & s & Eq & El & Es & P).
  unfold quote_int in Es.
  destruct (str_of_int start) as [ds|] eqn:Ed; [|discriminate Es].
  unfold start_of, param, raw_param. rewrite P. cbn [assoc].
  change (str_eqb (lit "q") (lit "q")) with true.
  change (str_eqb (lit "l") (lit "q")) with false.
  change (str_eqb (lit "l") (lit "l")) with true.
  change (str_eqb (lit "start") (lit "q")) with false.
  change (str_eqb (lit "start") (lit "l")) with false.
  change (str_eqb (lit "start") (lit "start")) with true.
  cbv iota.
  rewrite (unquote_quote _ _ Eq), (unquote_quote _ _ El),
    (unquote_quote _ _ Es).
  repeat split. now apply int_of_str_of_int.
Qed.

End QuoteFacts.

(** ** The loops of [scrape_jobs] *)

Module ScraperFacts.

Import QuoteFacts.

Lemma cards_loop_cons card cards results :
  cards_loop (card :: cards) results
  = cards_loop cards (card_step results card).
Proof. reflexivity. Qed.

(** The loop only appends: its result is the accumulator followed by
    the postings of the cards, in order. *)
Lemma cards_loop_acc cards results :
  cards_loop cards results = results ++ cards_loop cards [].
Proof.
  revert results. induction cards as [|c cs IH]; intros results.
  - cbn. now rewrite app_nil_r.
  - rewrite !cards_loop_cons, (IH (card_step results c)),
      (IH (card_step [] c)).
    unfold card_step. destruct (card_posting c).
    + cbn [app]. now rewrite <- app_assoc.
    + cbn [app]. reflexivity.
Qed.

Lemma cards_loop_app before after results :
  cards_loop (before ++ after) results
  = cards_loop after (cards_loop before results).
Proof. unfold cards_loop. apply fold_left_app. Qed.

Lemma cards_loop_in cards results p :
  In p (cards_loop cards results) ->
  In p results \/ exists card, In card cards /\ card_posting card = Some p.
Proof.
  revert results. induction cards as [|c cs IH]; intros results H.
  - now left.
  - rewrite cards_loop_cons in H. apply IH in H.
    destruct H as [H | (card & Hin & Hp)].
    + unfold card_step in H. destruct (card_posting c) eqn:E.
      * apply in_app_or in H. destruct H as [H | [<- | []]].
        -- now left.
        -- right. exists c. split; [now left | assumption].
      * now left.
    + right. exists card. split; [now right | assumption].
Qed.

Lemma cards_loop_flat_map cards :
  forall rs, cards_loop cards rs = rs ++ flat_map posting_of_card cards.
Proof.
  induction cards as [|c cs IH]; intros rs.
  - cbn. now rewrite app_nil_r.
  - rewrite cards_loop_cons, IH. cbn [flat_map].
    unfold card_step, posting_of_card.
    destruct (card_posting c); cbn [app]; [|reflexivity].
    rewrite <- app_assoc. reflexivity.
Qed.

(** The trace given to the loop over pages is only extended. *)
Lemma pages_loop_trace net query location pages results trace :
  requested (pages_loop net query location pages results trace)
  = trace ++ requested (pages_loop net query location pages results [])
  /\ result (pages_loop net query location pages results trace)
     = result (pages_loop net query location pages results []).
Proof.
  revert results trace.
  induction pages as [|page rest IH]; intros results trace;
    cbn [pages_loop].
  - cbn. now rewrite app_nil_r.
  - destruct (_build_search_url query location (page * 10)) as [u|].
    2:{ cbn. now rewrite app_nil_r. }
    destruct (net u) as [|st soup|st].
    + cbn. auto.
    + destruct (raises_for_status st).
      * cbn. auto.
      * destruct (IH (cards_loop (select ([], soup) sel_cards) results)
                     (trace ++ [u])) as [E1 E2].
        destruct (IH (cards_loop (select ([], soup) sel_cards) results)
                     ([] ++ [u])) as [E3 E4].
        rewrite E1, E2, E3, E4, <- app_assoc. auto.
    + destruct (raises_for_status st); cbn; auto.
Qed.

(** One more page: the run after a page that was fetched and parsed. *)
Lemma pages_loop_step net query location page rest results u st soup :
  _build_search_url query location (page * 10) = Some u ->
  net u = Response st soup -> raises_for_status st = false ->
  requested (pages_loop net query location (page :: rest) results [])
  = u :: requested (pages_loop net query location rest
                      (results ++ page_postings net u) [])
  /\ result (pages_loop net query location (page :: rest) results [])
     = result (pages_loop net query location rest
                 (results ++ page_postings net u) []).
Proof.
  intros Hu En Er. cbn [pages_loop]. rewrite Hu, En, Er.
  unfold page_postings. rewrite En, <- cards_loop_flat_map.
  destruct (pages_loop_trace net query location rest
              (cards_loop (select ([], soup) sel_cards) results) ([] ++ [u]))
    as [E1 E2].
  now rewrite E1, E2.
Qed.


Lemma fetched_page_ok net u st soup :
  net u = Response st soup -> raises_for_status st = false ->
  ~ fetch_fails net u.
Proof. unfold fetch_fails. intros -> ->. discriminate. Qed.


(** A requested URL whose fetch fails ends the run with the error of
    that fetch. *)
Lemma pages_loop_failed_fetch net query location u :
  fetch_fails net u ->
  forall pages results,
  In u (requested (pages_loop net query location pages results [])) ->
  result (pages_loop net query location pages results [])
  = Raised (fetch_error net u) /\
  exists before,
    requested (pages_loop net query location pages results [])
    = before ++ [u].
Proof.
  intros Hf. induction pages as [|page rest IH]; intros results Hin.
  - destruct Hin.
  - destruct (_build_search_url query location (page * 10)) as [u'|] eqn:Hu;
      [|cbn [pages_loop] in Hin; rewrite Hu in Hin; destruct Hin].
    destruct (net u') as [|st' soup'|st'] eqn:En.
    + cbn [pages_loop] in *. rewrite Hu, En in *.
      destruct Hin as [<- | []]. unfold fetch_error. rewrite En.
      split; [reflexivity | now exists []].
    + destruct (raises_for_status st') eqn:Er.
      * cbn [pages_loop] in *. rewrite Hu, En, Er in *.
        destruct Hin as [<- | []]. unfold fetch_error. rewrite En.
        split; [reflexivity | now exists []].
      * destruct (pages_loop_step net query location page rest results
                    u' st' soup' Hu En Er) as [E1 E2].
        rewrite E1, E2 in *.
        destruct Hin as [<- | Hin].
        -- now destruct (fetched_page_ok net u' st' soup' En Er).
        -- destruct (IH _ Hin) as [Hr (before & Hb)].
           split; [assumption|].
           exists (u' :: before). cbn [app]. now rewrite Hb.
    + cbn [pages_loop] in *. rewrite Hu, En in *.
      unfold fetch_error.
      destruct (raises_for_status st') eqn:Er;
        destruct Hin as [<- | []]; rewrite En, Er;
        (split; [reflexivity | now exists []]).
Qed.

(** Every posting the loop over pages returns was in the accumulator
    or comes from a card selected from a fetched page. *)
Lemma pages_loop_postings net query location pages :
  forall results trace rs p,
  result (pages_loop net query location pages results trace) = Returned rs ->
  In p rs ->
  In p results \/
  exists u st soup card,
    net u = Response st soup /\ raises_for_status st = false /\
    In card (select ([], soup) sel_cards) /\ card_posting card = Some p.
Proof.
  induction pages as [|page rest IH]; intros results trace rs p Hr Hin;
    cbn [pages_loop] in Hr.
  - cbn in Hr. injection Hr as <-. now left.
  - destruct (_build_search_url query location (page * 10)) as [u|];
      [|discriminate Hr].
    destruct (net u) as [|st soup|st] eqn:En; [discriminate Hr| |].
    + destruct (raises_for_status st) eqn:Er; [discriminate Hr|].
      destruct (IH _ _ _ _ Hr Hin) as [H | H]; [|now right].
      apply cards_loop_in in H. destruct H as [H | (card & Hc & Hp)].
      * now left.
      * right. exists u, st, soup, card. auto.
    + destruct (raises_for_status st); discriminate Hr.
Qed.

(** The printing loop only appends to the output. *)
Lemma print_loop_acc postings out :
  fold_left print_job postings out
  = out ++ fold_left print_job postings [].
Proof.
  revert out. induction postings as [|p ps IH]; intros out; cbn [fold_left].
  - now rewrite app_nil_r.
  - rewrite (IH (print_job out p)), (IH (print_job [] p)).
    rewrite app_assoc. f_equal.
    unfold print_job. destruct (truthy (summary p)); cbn [app];
      now rewrite <- !app_assoc.
Qed.

End ScraperFacts.

(** ** The extraction of one card *)

Section Card.

Import Examples.

(** C5. For every card that yields a record: a [href] starting with
    a slash is prefixed with the site origin
    [https://www.indeed.com]; any other [href] is kept unchanged; a
    title link without [href] gives the empty URL. *)
Theorem posting_url_absolutized card title_tag :
  find_title_tag card = Some title_tag ->
  exists p,
    card_posting card = Some p /\
    (forall href,
        tag_get (snd title_tag) (lit "href") = Some href ->
        startswith_char 47 href = true ->
        url p = lit "https://www.indeed.com" ++ href) /\
    (forall href,
        tag_get (snd title_tag) (lit "href") = Some href ->
        startswith_char 47 href = false ->
        url p = href) /\
    (tag_get (snd title_tag) (lit "href") = None -> url p = []).
Proof.
  intros Ht. unfold card_posting. rewrite Ht.
  eexists. split; [reflexivity|]. cbn [url].
  unfold link_of, tag_get_default.
  repeat split.
  - intros href -> Hs. rewrite Hs.
    destruct href; [discriminate Hs | reflexivity].
  - intros href -> Hs. rewrite Hs, andb_false_r. reflexivity.
  - intros ->. reflexivity.
Qed.

Lemma posting_url_absolutized_witness :
  find_title_tag (in_page [card_primary] card_primary)
  = Some ([Tag (lit "h2") [lit "title"] [] [a_relative]; card_primary]
            ++ fst (in_page [card_primary] card_primary), a_relative)
  /\ exists p,
      card_posting (in_page [card_primary] card_primary) = Some p /\
      url p = lit "https://www.indeed.com/viewjob?jk=abc".
Proof.
  split; [reflexivity|].
  destruct (posting_url_absolutized
              (in_page [card_primary] card_primary) _ eq_refl)
    as (p & Hp & Hrel & _ & _).
  exists p. split; [exact Hp|].
  exact (Hrel (lit "/viewjob?jk=abc") eq_refl eq_refl).
Defined.

(** C6, as the code has it.  The title attribute is taken when it is
    present and non-empty; when it is absent or empty, the title is
    the trimmed text of the link. *)
Theorem posting_title_rule card title_tag :
  find_title_tag card = Some title_tag ->
  exists p,
    card_posting card = Some p /\
    (forall v,
        tag_get (snd title_tag) (lit "title") = Some v -> v <> [] ->
        title p = v) /\
    (tag_get (snd title_tag) (lit "title") = Some []
     \/ tag_get (snd title_tag) (lit "title") = None ->
     title p = stripped_text title_tag).
Proof.
  intros Ht. unfold card_posting. rewrite Ht.
  eexists. split; [reflexivity|]. cbn [title]. split.
  - intros v -> Hv. destruct v; [now destruct Hv | reflexivity].
  - intros [-> | ->]; reflexivity.
Qed.

Lemma posting_title_rule_witness :
  find_title_tag (in_page [card_primary] card_primary)
  = Some ([Tag (lit "h2") [lit "title"] [] [a_relative]; card_primary]
            ++ fst (in_page [card_primary] card_primary), a_relative)
  /\ exists p,
      card_posting (in_page [card_primary] card_primary) = Some p /\
      title p = lit "Engineer".
Proof.
  split; [reflexivity|].
  destruct (posting_title_rule
              (in_page [card_primary] card_primary) _ eq_refl)
    as (p & Hp & Hattr & _).
  exists p. split; [exact Hp|].
  apply Hattr; [reflexivity | discriminate].
Defined.

(** C6 as stated fails: the link [<a title="" href="/x">Engineer</a>]
    carries a title attribute, yet the record's title is the link's
    text and not the attribute's (empty) value. *)
Lemma empty_title_attribute_not_used :
  option_map snd
    (find_title_tag (in_page [card_of a_empty_title] (card_of a_empty_title)))
  = Some a_empty_title /\
  tag_get a_empty_title (lit "title") = Some [] /\
  card_posting (in_page [card_of a_empty_title] (card_of a_empty_title))
  = Some posting_empty_title /\
  title posting_empty_title = lit "Engineer" /\
  title posting_empty_title <> [].
Proof.
  repeat split; try reflexivity. discriminate.
Qed.

(** C7. Per field the alternate selector decides only when the
    primary one finds nothing: a match of the primary selector gives
    the field, whatever the alternate would match; a match of the
    alternate gives it when the primary has none. *)
Theorem selector_fallback_ordered card p :
  card_posting card = Some p ->
  (forall t, select_one card sel_title1 = Some t ->
             title p = or_str (tag_get (snd t) (lit "title"))
                              (stripped_text t)
             /\ url p = link_of t) /\
  (forall t, select_one card sel_title1 = None ->
             select_one card sel_title2 = Some t ->
             title p = or_str (tag_get (snd t) (lit "title"))
                              (stripped_text t)
             /\ url p = link_of t) /\
  (forall t, select_one card sel_company1 = Some t ->
             company p = stripped_text t) /\
  (forall t, select_one card sel_company1 = None ->
             select_one card sel_company2 = Some t ->
             company p = stripped_text t) /\
  (forall t, select_one card sel_loc1 = Some t ->
             location p = or_str (tag_get (snd t) (lit "data-rc-loc"))
                                 (stripped_text t)) /\
  (forall t, select_one card sel_loc1 = None ->
             select_one card sel_loc2 = Some t ->
             location p = or_str (tag_get (snd t) (lit "data-rc-loc"))
                                 (stripped_text t)) /\
  (forall t, select_one card sel_summary1 = Some t ->
             summary p = stripped_text t) /\
  (forall t, select_one card sel_summary1 = None ->
             select_one card sel_summary2 = Some t ->
             summary p = stripped_text t).
Proof.
  unfold card_posting, find_title_tag, find_company_tag, find_loc_tag,
    find_summary_tag, or_else.
  intros H.
  repeat split; intros; subst;
    repeat match goal with
           | E : select_one _ _ = _ |- _ => rewrite E in H
           end;
    try (injection H as <-; reflexivity);
    try (destruct (select_one card sel_title1);
         [|destruct (select_one card sel_title2); [|discriminate H]];
         injection H as <-; reflexivity).
Qed.

Lemma selector_fallback_ordered_witness :
  card_posting (in_page [card_alternate] card_alternate)
  = Some posting_alternate /\
  select_one (in_page [card_alternate] card_alternate) sel_company1 = None /\
  company posting_alternate = lit "Initech" /\
  card_posting (in_page [card_primary] card_primary)
  = Some posting_primary /\
  option_map stripped_text
    (select_one (in_page [card_primary] card_primary) sel_company2)
  = Some (lit "Other") /\
  company posting_primary = lit "ACME".
Proof.
  destruct (selector_fallback_ordered
              (in_page [card_alternate] card_alternate)
              posting_alternate eq_refl)
    as (_ & _ & _ & Halt & _).
  destruct (selector_fallback_ordered
              (in_page [card_primary] card_primary)
              posting_primary eq_refl)
    as (_ & _ & Hprim & _).
  split; [reflexivity|]. split; [reflexivity|].
  split; [exact (Halt _ eq_refl eq_refl)|].
  split; [reflexivity|]. split; [reflexivity|].
  exact (Hprim _ eq_refl).
Defined.

(** C8. A card in which neither title-link selector matches yields
    no record, and the loop goes on with the cards after it: the
    page's result is that of the page without the card. *)
Theorem untitled_card_skipped card :
  select_one card sel_title1 = None ->
  select_one card sel_title2 = None ->
  card_posting card = None /\
  forall before after results,
    cards_loop (before ++ card :: after) results
    = cards_loop (before ++ after) results.
Proof.
  intros H1 H2.
  assert (Hc : card_posting card = None).
  { unfold card_posting, find_title_tag. now rewrite H1, H2. }
  split; [exact Hc|].
  intros before after results.
  rewrite !ScraperFacts.cards_loop_app, ScraperFacts.cards_loop_cons.
  unfold card_step. now rewrite Hc.
Qed.

Lemma untitled_card_skipped_witness :
  card_posting (in_page [card_primary; card_untitled; card_alternate]
                        card_untitled) = None /\
  List.length (cards_loop
            (select ([], page [card_primary; card_untitled; card_alternate])
                    sel_cards) []) = 2%nat.
Proof.
  destruct (untitled_card_skipped
              (in_page [card_primary; card_untitled; card_alternate]
                       card_untitled) eq_refl eq_refl) as [Hc Hloop].
  split; [exact Hc|].
  change (select ([], page [card_primary; card_untitled; card_alternate])
                 sel_cards)
    with ([in_page [card_primary; card_untitled; card_alternate] card_primary]
            ++ in_page [card_primary; card_untitled; card_alternate]
                       card_untitled
            :: [in_page [card_primary; card_untitled; card_alternate]
                        card_alternate]).
  rewrite Hloop. reflexivity.
Defined.

End Card.

(** ** The built URL *)

Section Url.

Import Examples QuoteFacts.

(** C4. For well-formed query and location strings (and a start
    offset that [str] can print) the URL is built, its [q] and [l]
    parameters are written with unreserved characters, [/] and percent
    escapes only, and they decode back to exactly the query and the
    location. *)
Theorem search_url_params_roundtrip query location start :
  well_formed query = true -> well_formed location = true ->
  (int_digits start <= INT_MAX_STR_DIGITS)%nat ->
  exists u q l,
    _build_search_url query location start = Some u /\
    raw_param u (lit "q") = Some q /\
    raw_param u (lit "l") = Some l /\
    forallb url_char q = true /\
    forallb url_char l = true /\
    unquote q = Some query /\
    unquote l = Some location.
Proof.
  intros Hq Hl Hs.
  destruct (build_url_total query location start Hq Hl Hs) as [u Hu].
  destruct (build_url_pairs _ _ _ _ Hu) as (q & l & s & Eq & El & _ & P).
  exists u, q, l. unfold raw_param. rewrite P.
  repeat split; try assumption; try reflexivity.
  - apply forallb_forall. apply Forall_forall. eapply quote_chars; eassumption.
  - apply forallb_forall. apply Forall_forall. eapply quote_chars; eassumption.
  - now apply unquote_quote.
  - now apply unquote_quote.
Qed.

Lemma search_url_params_roundtrip_witness :
  well_formed q_special = true /\
  well_formed (lit "New York") = true /\
  (int_digits 20 <= INT_MAX_STR_DIGITS)%nat /\
  exists u,
    _build_search_url q_special (lit "New York") 20 = Some u /\
    param u (lit "q") = Some q_special /\
    param u (lit "l") = Some (lit "New York").
Proof.
  assert (Hd : (int_digits 20 <= INT_MAX_STR_DIGITS)%nat)
    by (apply Nat.leb_le; vm_compute; reflexivity).
  split; [reflexivity|]. split; [reflexivity|]. split; [exact Hd|].
  destruct (search_url_params_roundtrip q_special (lit "New York") 20
                                        eq_refl eq_refl Hd)
    as (u & q & l & Hu & Hq & Hl & _ & _ & Dq & Dl).
  exists u. unfold param. rewrite Hq, Hl. auto.
Defined.

End Url.

(** ** Whole runs *)

Section Run.

Import Examples ScraperFacts.

(** C10. With [pages <= 0] the loop body never runs: no request is
    made and the empty list is returned. *)
Theorem scrape_jobs_no_pages net query location pages :
  (pages <= 0)%Z ->
  scrape_jobs net query location pages = mkRun [] (Returned []).
Proof.
  intros H. unfold scrape_jobs, py_range.
  replace (Z.to_nat pages) with 0%nat by lia. reflexivity.
Qed.

Lemma scrape_jobs_no_pages_witness :
  (-3 <= 0)%Z /\
  scrape_jobs net_down (lit "python developer") (lit "New York") (-3)
  = mkRun [] (Returned []).
Proof.
  split; [lia|]. apply scrape_jobs_no_pages. lia.
Defined.




(** C2 as stated fails: a response with status 304 is not a success
    status, yet the run does not raise and returns the postings
    parsed from its body. *)
Lemma status_304_not_raised :
  scrape_jobs (net_const 304 (page [card_alternate]))
              (lit "python developer") (lit "New York") 1
  = mkRun [url_page0] (Returned [posting_alternate]) /\
  net_const 304 (page [card_alternate]) url_page0
  = Response 304 (page [card_alternate]) /\
  ~ (200 <= 304 < 300)%Z.
Proof.
  split; [vm_compute; reflexivity|].
  split; [reflexivity | lia].
Qed.

(** C2, as the code has it.  When a requested page is answered with
    a client or server error status ([400 <= status < 600]), whatever
    its body, the run raises [HTTPError] with that status, that
    request is its last, and no postings are returned. *)
Theorem error_status_aborts_run net query location pages u st :
  In u (requested (scrape_jobs net query location pages)) ->
  status_of (net u) = Some st ->
  (400 <= st < 600)%Z ->
  result (scrape_jobs net query location pages) = Raised (HTTPError st) /\
  exists before,
    requested (scrape_jobs net query location pages) = before ++ [u].
Proof.
  intros Hin Hu Hst. unfold scrape_jobs in *.
  assert (Hr : raises_for_status st = true)
    by (unfold raises_for_status; lia).
  assert (Hf : fetch_fails net u /\ fetch_error net u = HTTPError st).
  { unfold fetch_fails, fetch_error.
    destruct (net u) as [|st' soup|st']; try discriminate Hu;
      injection Hu as ->; rewrite ?Hr; auto. }
  destruct Hf as [Hf He]. rewrite <- He.
  exact (pages_loop_failed_fetch net query location u Hf _ _ Hin).
Qed.

Lemma error_status_aborts_run_witness :
  In url_page0
     (requested (scrape_jobs (net_const 500 (page [card_primary]))
                             (lit "python developer") (lit "New York") 3)) /\
  (400 <= 500 < 600)%Z /\
  result (scrape_jobs (net_const 500 (page [card_primary]))
                      (lit "python developer") (lit "New York") 3)
  = Raised (HTTPError 500).
Proof.
  assert (Hin : In url_page0
     (requested (scrape_jobs (net_const 500 (page [card_primary]))
                             (lit "python developer") (lit "New York") 3)))
    by (vm_compute; left; reflexivity).
  split; [exact Hin|]. split; [lia|].
  exact (proj1 (error_status_aborts_run
                  (net_const 500 (page [card_primary]))
                  (lit "python developer") (lit "New York") 3
                  url_page0 500 Hin eq_refl ltac:(lia))).
Defined.

(** C1 as stated fails: a card whose title link has neither a title
    attribute nor text yields a record whose title is empty. *)
Lemma empty_title_in_output :
  scrape_jobs (net_const 200 (page [card_of a_blank]))
              (lit "python developer") (lit "New York") 1
  = mkRun [url_page0] (Returned [posting_blank]) /\
  title posting_blank = [].
Proof.
  split; [vm_compute; reflexivity | reflexivity].
Qed.

(** C1, as the code has it.  Every record of the output comes from a
    card, selected from a fetched page, in which a title link was
    found; its title is the link's title attribute when that is
    present and non-empty and the link's trimmed text otherwise, so
    it is empty exactly when the link has neither. *)
Theorem output_titles_from_title_links net query location pages rs p :
  result (scrape_jobs net query location pages) = Returned rs ->
  In p rs ->
  exists u st soup card title_tag,
    net u = Response st soup /\
    In card (select ([], soup) sel_cards) /\
    find_title_tag card = Some title_tag /\
    card_posting card = Some p /\
    title p = or_str (tag_get (snd title_tag) (lit "title"))
                     (stripped_text title_tag) /\
    (title p = [] <->
     (tag_get (snd title_tag) (lit "title") = None \/
      tag_get (snd title_tag) (lit "title") = Some []) /\
     stripped_text title_tag = []).
Proof.
  intros Hr Hin. unfold scrape_jobs in Hr.
  destruct (pages_loop_postings _ _ _ _ _ _ _ _ Hr Hin)
    as [[] | (u & st & soup & card & Hu & _ & Hc & Hp)].
  exists u, st, soup, card.
  unfold card_posting in Hp.
  destruct (find_title_tag card) as [t|] eqn:Et; [|discriminate Hp].
  exists t. injection Hp as <-. cbn [title].
  repeat split; try assumption.
  - unfold card_posting. now rewrite Et.
  - destruct (tag_get (snd t) (lit "title")) as [[|c v]|]; cbn; auto.
    discriminate.
  - destruct (tag_get (snd t) (lit "title")) as [[|c v]|]; cbn; auto.
    discriminate.
  - intros [[-> | ->] ->]; reflexivity.
Qed.

Lemma output_titles_from_title_links_witness :
  result (scrape_jobs (net_const 200 (page [card_alternate]))
                      (lit "python developer") (lit "New York") 1)
  = Returned [posting_alternate] /\
  exists card title_tag,
    find_title_tag card = Some title_tag /\
    card_posting card = Some posting_alternate /\
    title posting_alternate
    = or_str (tag_get (snd title_tag) (lit "title"))
             (stripped_text title_tag).
Proof.
  assert (Hr : result (scrape_jobs (net_const 200 (page [card_alternate]))
                                   (lit "python developer")
                                   (lit "New York") 1)
               = Returned [posting_alternate])
    by (vm_compute; reflexivity).
  split; [exact Hr|].
  destruct (output_titles_from_title_links
              (net_const 200 (page [card_alternate]))
              (lit "python developer") (lit "New York") 1
              _ posting_alternate Hr (or_introl eq_refl))
    as (u & st & soup & card & t & _ & _ & Ht & Hp & Htitle & _).
  exists card, t. repeat split; assumption.
Defined.

(** C9. The lines printed for a list of postings are, per posting in
    order, the line [<title> at <company> (<location>)], the summary
    if it is non-empty, the URL, and a separator of exactly sixty
    dashes. *)
Theorem print_postings_report postings :
  print_postings postings = report postings /\
  separator = repeat 45 60 /\
  List.length separator = 60%nat.
Proof.
  split; [|split; reflexivity].
  unfold print_postings, report.
  induction postings as [|p ps IH]; cbn [fold_left flat_map].
  - reflexivity.
  - rewrite print_loop_acc, IH. f_equal.
    unfold print_job, posting_report.
    destruct (summary p); reflexivity.
Qed.

End Run.

(** ** Further properties of the extraction of one card *)

Module CardFacts.

Import Examples ScraperFacts.

(** X1. A card with a title link always yields a record, and a field whose
    selectors both find nothing is the empty string: a missing
    company, location or summary never makes the card fail. *)
Theorem missing_fields_are_empty card title_tag :
  find_title_tag card = Some title_tag ->
  exists p,
    card_posting card = Some p /\
    (select_one card sel_company1 = None ->
     select_one card sel_company2 = None -> company p = []) /\
    (select_one card sel_loc1 = None ->
     select_one card sel_loc2 = None -> location p = []) /\
    (select_one card sel_summary1 = None ->
     select_one card sel_summary2 = None -> summary p = []).
Proof.
  intros Ht. unfold card_posting. rewrite Ht.
  eexists. split; [reflexivity|].
  unfold find_company_tag, find_loc_tag, find_summary_tag, or_else.
  repeat split; intros -> ->; reflexivity.
Qed.

Lemma missing_fields_are_empty_witness :
  option_map snd
    (find_title_tag (in_page [card_of a_no_href] (card_of a_no_href)))
  = Some a_no_href /\
  exists p,
    card_posting (in_page [card_of a_no_href] (card_of a_no_href)) = Some p /\
    company p = [] /\ location p = [] /\ summary p = [].
Proof.
  split; [reflexivity|].
  destruct (missing_fields_are_empty
              (in_page [card_of a_no_href] (card_of a_no_href)) _ eq_refl)
    as (p & Hp & Hc & Hl & Hs).
  exists p. split; [exact Hp|].
  split; [exact (Hc eq_refl eq_refl)|].
  split; [exact (Hl eq_refl eq_refl) | exact (Hs eq_refl eq_refl)].
Defined.

(** X2. The location of a record is the [data-rc-loc] attribute of the
    location tag when that attribute is present and non-empty, and the
    tag's trimmed text when it is absent or empty. *)
Theorem location_prefers_data_attribute card p loc_tag :
  card_posting card = Some p ->
  find_loc_tag card = Some loc_tag ->
  (forall v,
      tag_get (snd loc_tag) (lit "data-rc-loc") = Some v -> v <> [] ->
      location p = v) /\
  (tag_get (snd loc_tag) (lit "data-rc-loc") = Some []
   \/ tag_get (snd loc_tag) (lit "data-rc-loc") = None ->
   location p = stripped_text loc_tag).
Proof.
  unfold card_posting. intros Hp Hl.
  destruct (find_title_tag card); [|discriminate Hp].
  rewrite Hl in Hp. injection Hp as <-. cbn [location]. split.
  - intros v -> Hv. destruct v; [now destruct Hv | reflexivity].
  - intros [-> | ->]; reflexivity.
Qed.

Lemma location_prefers_data_attribute_witness :
  card_posting (in_page [card_primary] card_primary) = Some posting_primary /\
  option_map stripped_text
    (find_loc_tag (in_page [card_primary] card_primary))
  = Some (lit "elsewhere") /\
  location posting_primary = lit "Toronto, ON".
Proof.
  split; [reflexivity|]. split; [reflexivity|].
  destruct (location_prefers_data_attribute
              (in_page [card_primary] card_primary) posting_primary
              _ eq_refl eq_refl) as [Hattr _].
  apply Hattr; [reflexivity | discriminate].
Defined.


(** [lstrip] removes a prefix and leaves no leading whitespace. *)
Lemma lstrip_suffix s : exists pre, s = pre ++ lstrip s.
Proof.
  induction s as [|c s [pre IH]]; cbn [lstrip].
  - now exists [].
  - destruct (isspace c).
    + exists (c :: pre). cbn [app]. now rewrite <- IH.
    + now exists [].
Qed.

Lemma lstrip_no_leading_space s : starts_with_space (lstrip s) = false.
Proof.
  induction s as [|c s IH]; cbn [lstrip].
  - reflexivity.
  - destruct (isspace c) eqn:E; [exact IH | exact E].
Qed.

Lemma rstrip_prefix s : exists post, s = rstrip s ++ post.
Proof.
  unfold rstrip. destruct (lstrip_suffix (rev s)) as [pre E].
  exists (rev pre). rewrite <- rev_app_distr, <- E. now rewrite rev_involutive.
Qed.

(** [strip] leaves no whitespace at either end. *)
Lemma strip_trimmed s :
  starts_with_space (strip s) = false /\ ends_with_space (strip s) = false.
Proof.
  unfold strip. split.
  - destruct (rstrip_prefix (lstrip s)) as [post E].
    pose proof (lstrip_no_leading_space s) as H.
    rewrite E in H. destruct (rstrip (lstrip s)); [reflexivity | exact H].
  - unfold ends_with_space, rstrip. rewrite rev_involutive.
    apply lstrip_no_leading_space.
Qed.

(** X3. The company and the summary of a record carry no whitespace at
    their ends. *)
Theorem company_and_summary_trimmed card p :
  card_posting card = Some p ->
  starts_with_space (company p) = false /\
  ends_with_space (company p) = false /\
  starts_with_space (summary p) = false /\
  ends_with_space (summary p) = false.
Proof.
  unfold card_posting. intros Hp.
  destruct (find_title_tag card); [|discriminate Hp].
  injection Hp as <-. cbn [company summary]. unfold stripped_text.
  destruct (find_company_tag card) as [c|], (find_summary_tag card) as [s|];
    repeat split;
    try reflexivity; try apply (strip_trimmed (text (snd c)));
    try apply (strip_trimmed (text (snd s))).
Qed.

Lemma company_and_summary_trimmed_witness :
  card_posting (in_page [card_primary] card_primary) = Some posting_primary /\
  option_map (fun t => text (snd t))
    (find_company_tag (in_page [card_primary] card_primary))
  = Some (lit " ACME ") /\
  starts_with_space (company posting_primary) = false /\
  ends_with_space (company posting_primary) = false.
Proof.
  split; [reflexivity|]. split; [reflexivity|].
  destruct (company_and_summary_trimmed
              (in_page [card_primary] card_primary) posting_primary eq_refl)
    as (H1 & H2 & _).
  split; [exact H1 | exact H2].
Defined.

(** X4. The loop over cards appends, in card order, one record per card
    with a title link and nothing for the others; so a page yields as
    many records as it has cards with a title link, never more than it
    has cards. *)
Theorem cards_loop_records cards results :
  cards_loop cards results = results ++ flat_map posting_of_card cards /\
  List.length (cards_loop cards [])
  = List.length (filter has_title_link cards) /\
  (List.length (cards_loop cards []) <= List.length cards)%nat.
Proof.
  pose proof (cards_loop_flat_map cards) as H.
  split; [apply H|].
  assert (L : List.length (cards_loop cards [])
              = List.length (filter has_title_link cards)).
  { rewrite H. cbn [app]. clear H.
    induction cards as [|c cs IH]; [reflexivity|].
    cbn [flat_map filter]. rewrite length_app, IH.
    unfold posting_of_card, has_title_link, card_posting.
    destruct (find_title_tag c); reflexivity. }
  split; [exact L|]. rewrite L. apply filter_length_le.
Qed.

End CardFacts.

(** ** Further properties of the built URL *)

Module UrlFacts.

Import Examples QuoteFacts.

Lemma url_chars_ascii e :
  Forall (fun c => url_char c = true) e -> forallb is_ascii e = true.
Proof.
  intros H. apply forallb_forall. intros c Hc.
  rewrite Forall_forall in H. specialize (H c Hc).
  unfold url_char, is_safe in H. unfold is_ascii. lia.
Qed.

(** X5. The built URL is the base URL, a question mark and exactly the
    three parameters [q], [l] and [start] in this order; its [start]
    parameter reads back as the integer given, negative or not; and
    every character of the URL is ASCII. *)
Theorem search_url_shape query location start u :
  _build_search_url query location start = Some u ->
  (exists rest, u = BASE_URL ++ lit "?" ++ rest) /\
  map fst (query_pairs u) = [lit "q"; lit "l"; lit "start"] /\
  start_of u = Some start /\
  forallb is_ascii u = true.
Proof.
  intros H.
  pose proof (build_url_params _ _ _ _ H) as (_ & _ & Hstart).
  destruct (build_url_pairs _ _ _ _ H) as (q0 & l0 & s0 & _ & _ & _ & P).
  destruct (build_url_shape _ _ _ _ H) as (q & l & s & Eq & El & Es & E).
  split; [|split; [|split]].
  - rewrite E. eexists. reflexivity.
  - rewrite P. reflexivity.
  - exact Hstart.
  - rewrite E.
    pose proof (url_chars_ascii _ (quote_chars _ _ Eq)) as Aq.
    pose proof (url_chars_ascii _ (quote_chars _ _ El)) as Al.
    pose proof (url_chars_ascii _ (quote_int_chars _ _ Es)) as As.
    repeat (rewrite forallb_app || cbn [forallb]).
    rewrite Aq, Al, As. reflexivity.
Qed.

Lemma search_url_shape_witness :
  _build_search_url Examples.q_special (lit "New York") (-30)
  = Some url_special /\
  start_of url_special = Some (-30)%Z /\
  forallb is_ascii url_special = true.
Proof.
  assert (H : _build_search_url Examples.q_special (lit "New York") (-30)
              = Some url_special) by (vm_compute; reflexivity).
  split; [exact H|].
  destruct (search_url_shape _ _ _ _ H) as (_ & _ & Hs & Ha).
  split; [exact Hs | exact Ha].
Defined.

Lemma quote_ill_formed s : well_formed s = false -> quote s = None.
Proof.
  intros H. unfold quote.
  destruct (utf8_encode s) as [bs|] eqn:E; [|reflexivity].
  apply utf8_encode_well_formed_inv in E. congruence.
Qed.

Lemma build_url_ill_formed query location start :
  well_formed query = false \/ well_formed location = false ->
  _build_search_url query location start = None
  /\ build_error query location = UnicodeEncodeError.
Proof.
  unfold _build_search_url, build_error. intros [H | H].
  - now rewrite (quote_ill_formed _ H).
  - rewrite (quote_ill_formed _ H). now destruct (quote query).
Qed.

(** X6. Building the URL fails exactly when the query or the location
    holds a code point UTF-8 cannot encode (a lone surrogate), which
    raises [UnicodeEncodeError], or, these being well-formed, when the
    start offset has more decimal digits than [str] converts, which
    raises [ValueError]. *)
Theorem search_url_fails_iff query location start :
  (_build_search_url query location start = None <->
   well_formed query = false \/ well_formed location = false \/
   (INT_MAX_STR_DIGITS < int_digits start)%nat) /\
  (well_formed query = false \/ well_formed location = false ->
   build_error query location = UnicodeEncodeError) /\
  (well_formed query = true -> well_formed location = true ->
   build_error query location = ValueError).
Proof.
  split; [split|split].
  - intros H.
    destruct (well_formed query) eqn:Hq; [|now left].
    destruct (well_formed location) eqn:Hl; [|now right; left].
    right. right.
    destruct (Nat.le_gt_cases (int_digits start) INT_MAX_STR_DIGITS)
      as [Hs | Hs]; [|exact Hs].
    destruct (build_url_total query location start Hq Hl Hs) as [u Hu].
    congruence.
  - intros [H | [H | H]].
    + now apply build_url_ill_formed; left.
    + now apply build_url_ill_formed; right.
    + unfold _build_search_url. rewrite (quote_int_beyond_limit _ H).
      now destruct (quote query), (quote location).
  - intros H. now apply (build_url_ill_formed query location 0).
  - intros Hq Hl. unfold build_error.
    destruct (quote_well_formed _ Hq) as [q ->].
    now destruct (quote_well_formed _ Hl) as [l ->].
Qed.

(** X7. Different inputs never give the same URL: the query, the location
    and the offset can be read back from it. *)
Theorem search_url_injective query location start query' location' start' u :
  _build_search_url query location start = Some u ->
  _build_search_url query' location' start' = Some u ->
  query = query' /\ location = location' /\ start = start'.
Proof.
  intros H H'.
  destruct (build_url_params _ _ _ _ H) as (Hq & Hl & Hs).
  destruct (build_url_params _ _ _ _ H') as (Hq' & Hl' & Hs').
  repeat split; congruence.
Qed.

Lemma search_url_injective_witness :
  _build_search_url (lit "python developer") (lit "New York") 0
  = Some url_page0 /\
  forall query location start,
    _build_search_url query location start = Some url_page0 ->
    query = lit "python developer" /\ location = lit "New York"
    /\ start = 0%Z.
Proof.
  assert (H : _build_search_url (lit "python developer") (lit "New York") 0
              = Some url_page0) by (vm_compute; reflexivity).
  split; [exact H|].
  intros query location start H'.
  exact (search_url_injective _ _ _ _ _ _ _ H' H).
Defined.

End UrlFacts.

(** ** Further properties of whole runs *)

Module RunFacts.

Import Examples QuoteFacts ScraperFacts CardFacts UrlFacts.

(** X8. When [requests.get] itself raises for a requested page (timeout,
    DNS, connection reset), the run raises that error at once: the
    request is the last one made and no postings are returned, also
    not those of earlier pages. *)
Theorem connection_failure_aborts_run net query location pages u :
  In u (requested (scrape_jobs net query location pages)) ->
  net u = NoResponse ->
  result (scrape_jobs net query location pages) = Raised RequestException /\
  exists before,
    requested (scrape_jobs net query location pages) = before ++ [u].
Proof.
  intros Hin Hu. unfold scrape_jobs in *.
  assert (Hf : fetch_fails net u) by (unfold fetch_fails; now rewrite Hu).
  destruct (pages_loop_failed_fetch net query location u Hf _ _ Hin)
    as [Hr Hb].
  unfold fetch_error in Hr. rewrite Hu in Hr. auto.
Qed.

Lemma connection_failure_aborts_run_witness :
  In url_page0
     (requested (scrape_jobs net_down (lit "python developer")
                             (lit "New York") 3)) /\
  result (scrape_jobs net_down (lit "python developer") (lit "New York") 3)
  = Raised RequestException /\
  requested (scrape_jobs net_down (lit "python developer")
                         (lit "New York") 3) = [] ++ [url_page0].
Proof.
  assert (Hin : In url_page0
     (requested (scrape_jobs net_down (lit "python developer")
                             (lit "New York") 3)))
    by (vm_compute; left; reflexivity).
  split; [exact Hin|].
  split.
  - exact (proj1 (connection_failure_aborts_run
                    net_down (lit "python developer") (lit "New York") 3
                    url_page0 Hin eq_refl)).
  - vm_compute. reflexivity.
Defined.

(** X15. When a requested page is answered with a non-error status
    and a body that the HTML parser rejects, [BeautifulSoup] raises:
    the run ends with that error, the request is the last one made
    and no postings are returned. *)
Theorem parser_rejection_aborts_run net query location pages u st :
  In u (requested (scrape_jobs net query location pages)) ->
  net u = Unparsable st ->
  raises_for_status st = false ->
  result (scrape_jobs net query location pages)
  = Raised ParserRejectedMarkup /\
  exists before,
    requested (scrape_jobs net query location pages) = before ++ [u].
Proof.
  intros Hin Hu Hst. unfold scrape_jobs in *.
  assert (Hf : fetch_fails net u) by (unfold fetch_fails; now rewrite Hu).
  destruct (pages_loop_failed_fetch net query location u Hf _ _ Hin)
    as [Hr Hb].
  unfold fetch_error in Hr. rewrite Hu, Hst in Hr. auto.
Qed.

Lemma parser_rejection_aborts_run_witness :
  In url_page0
     (requested (scrape_jobs net_unparsable (lit "python developer")
                             (lit "New York") 3)) /\
  raises_for_status 200 = false /\
  result (scrape_jobs net_unparsable (lit "python developer")
                      (lit "New York") 3)
  = Raised ParserRejectedMarkup.
Proof.
  assert (Hin : In url_page0
     (requested (scrape_jobs net_unparsable (lit "python developer")
                             (lit "New York") 3)))
    by (vm_compute; left; reflexivity).
  split; [exact Hin|]. split; [reflexivity|].
  exact (proj1 (parser_rejection_aborts_run
                  net_unparsable (lit "python developer") (lit "New York") 3
                  url_page0 200 Hin eq_refl eq_refl)).
Defined.

(** X9. A run that returns got a response with a non-error status for
    every URL it requested. *)
Theorem returned_run_all_fetched net query location pages rs :
  result (scrape_jobs net query location pages) = Returned rs ->
  Forall (fun u => exists st soup,
              net u = Response st soup /\ raises_for_status st = false)
         (requested (scrape_jobs net query location pages)).
Proof.
  intros Hr. apply Forall_forall. intros u Hin. unfold scrape_jobs in *.
  assert (Hok : ~ fetch_fails net u).
  { intros Hf.
    destruct (pages_loop_failed_fetch net query location u Hf _ _ Hin)
      as [Hr' _].
    congruence. }
  unfold fetch_fails in Hok.
  destruct (net u) as [|st soup|st]; [now destruct Hok| |now destruct Hok].
  destruct (raises_for_status st) eqn:Er; [now destruct Hok|].
  exists st, soup. split; [reflexivity | exact Er].
Qed.

Lemma returned_run_all_fetched_witness :
  result (scrape_jobs (net_const 200 (page [card_alternate]))
                      (lit "python developer") (lit "New York") 1)
  = Returned [posting_alternate] /\
  Forall (fun u => exists st soup,
              net_const 200 (page [card_alternate]) u = Response st soup /\
              raises_for_status st = false)
         (requested (scrape_jobs (net_const 200 (page [card_alternate]))
                                 (lit "python developer")
                                 (lit "New York") 1)).
Proof.
  assert (Hr : result (scrape_jobs (net_const 200 (page [card_alternate]))
                                   (lit "python developer")
                                   (lit "New York") 1)
               = Returned [posting_alternate])
    by (vm_compute; reflexivity).
  split; [exact Hr|].
  exact (returned_run_all_fetched _ _ _ _ _ Hr).
Defined.

Lemma pages_loop_returned net query location pages :
  forall results rs,
  result (pages_loop net query location pages results []) = Returned rs ->
  rs = results
       ++ flat_map (page_postings net)
            (requested (pages_loop net query location pages results [])).
Proof.
  induction pages as [|page rest IH]; intros results rs Hr.
  - cbn in *. injection Hr as <-. now rewrite app_nil_r.
  - destruct (_build_search_url query location (page * 10)) as [u|] eqn:Hu;
      [|cbn [pages_loop] in Hr; rewrite Hu in Hr; discriminate Hr].
    destruct (net u) as [|st soup|st] eqn:En;
      try (cbn [pages_loop] in Hr; rewrite Hu, En in Hr;
           try destruct (raises_for_status st); discriminate Hr).
    destruct (raises_for_status st) eqn:Er;
      [cbn [pages_loop] in Hr; rewrite Hu, En, Er in Hr; discriminate Hr|].
    destruct (pages_loop_step net query location page rest results
                u st soup Hu En Er) as [E1 E2].
    rewrite E1. rewrite E2 in Hr. cbn [flat_map].
    rewrite (IH _ rs Hr). now rewrite <- app_assoc.
Qed.

(** X10. The list a run returns is the concatenation, in the order of the
    requests, of the records of each fetched page, each page giving
    its records in document order. *)
Theorem returned_postings_in_page_order net query location pages rs :
  result (scrape_jobs net query location pages) = Returned rs ->
  rs = flat_map (page_postings net)
                (requested (scrape_jobs net query location pages)).
Proof.
  intros Hr. unfold scrape_jobs in *.
  now apply pages_loop_returned in Hr.
Qed.

Lemma returned_postings_in_page_order_witness :
  result (scrape_jobs (net_const 200 (page [card_primary; card_alternate]))
                      (lit "python developer") (lit "New York") 2)
  = Returned [posting_primary; posting_alternate;
              posting_primary; posting_alternate] /\
  [posting_primary; posting_alternate; posting_primary; posting_alternate]
  = flat_map
      (page_postings (net_const 200 (page [card_primary; card_alternate])))
      (requested
         (scrape_jobs (net_const 200 (page [card_primary; card_alternate]))
                      (lit "python developer") (lit "New York") 2)).
Proof.
  assert (Hr : result (scrape_jobs
                         (net_const 200 (page [card_primary; card_alternate]))
                         (lit "python developer") (lit "New York") 2)
               = Returned [posting_primary; posting_alternate;
                           posting_primary; posting_alternate])
    by (vm_compute; reflexivity).
  split; [exact Hr|].
  exact (returned_postings_in_page_order _ _ _ _ _ Hr).
Defined.

(** X11. With [pages >= 1] and a query or location that UTF-8 cannot
    encode, the run raises [UnicodeEncodeError] before any request is
    made. *)
Theorem ill_formed_input_raises_before_request net query location pages :
  (1 <= pages)%Z ->
  well_formed query = false \/ well_formed location = false ->
  scrape_jobs net query location pages = mkRun [] (Raised UnicodeEncodeError).
Proof.
  intros Hp Hw. unfold scrape_jobs, py_range.
  destruct (Z.to_nat pages) as [|n] eqn:E; [lia|].
  cbn [seq map pages_loop].
  destruct (build_url_ill_formed query location (Z.of_nat 0 * 10) Hw)
    as [-> ->].
  reflexivity.
Qed.

Lemma ill_formed_input_raises_before_request_witness :
  (1 <= 2)%Z /\
  well_formed [55296] = false /\
  scrape_jobs (net_const 200 (page [card_primary]))
              [55296] (lit "New York") 2
  = mkRun [] (Raised UnicodeEncodeError).
Proof.
  split; [lia|]. split; [reflexivity|].
  apply ill_formed_input_raises_before_request; [lia | left; reflexivity].
Defined.



(** The printing loop writes what [report] describes. *)
Lemma print_postings_flat_map postings :
  print_postings postings = flat_map posting_report postings.
Proof.
  unfold print_postings.
  induction postings as [|p ps IH]; cbn [fold_left flat_map].
  - reflexivity.
  - rewrite print_loop_acc, IH. f_equal.
    unfold print_job, posting_report.
    destruct (summary p); reflexivity.
Qed.

Lemma newlines_app a b : newlines (a ++ b) = (newlines a + newlines b)%nat.
Proof. apply count_occ_app. Qed.

Lemma stdout_text_app a b :
  stdout_text (a ++ b) = stdout_text a ++ stdout_text b.
Proof. apply flat_map_app. Qed.

(** The newlines written for one posting. *)
Lemma posting_report_newlines job :
  newlines (stdout_text (posting_report job))
  = (3 + (if truthy (summary job) then 1 else 0) + field_newlines job)%nat.
Proof.
  unfold posting_report, field_newlines.
  rewrite !stdout_text_app, !newlines_app.
  assert (Hone : forall s, newlines (stdout_text [s]) = S (newlines s)).
  { intros s. cbn [stdout_text flat_map]. rewrite app_nil_r, newlines_app.
    change (newlines [10]) with 1%nat. lia. }
  rewrite !Hone, !newlines_app.
  change (newlines (lit " at ")) with 0%nat.
  change (newlines (lit " (")) with 0%nat.
  change (newlines (lit ")")) with 0%nat.
  change (newlines separator) with 0%nat.
  destruct (summary job) as [|c rest] eqn:Es; cbn [truthy].
  - change (newlines (stdout_text [])) with 0%nat.
    change (newlines []) with 0%nat. lia.
  - rewrite Hone. lia.
Qed.

(** X13. The text the printing loop of [main] writes has one line per
    [print] call, three per posting and a fourth for each posting
    whose summary is non-empty, and one more line for every newline
    character inside a printed field. *)
Theorem printed_line_count postings :
  line_count (stdout_text (print_postings postings))
  = (3 * List.length postings
     + List.length (filter (fun job => truthy (summary job)) postings)
     + list_sum (map field_newlines postings))%nat.
Proof.
  rewrite print_postings_flat_map. unfold line_count.
  induction postings as [|p ps IH]; [reflexivity|].
  cbn [flat_map filter map List.length].
  change (list_sum (field_newlines p :: map field_newlines ps))
    with (field_newlines p + list_sum (map field_newlines ps))%nat.
  rewrite stdout_text_app, newlines_app, IH, posting_report_newlines.
  destruct (truthy (summary p)); cbn [List.length]; lia.
Qed.



End RunFacts.
